(** * The [digitalocean_droplets] data source

    A shallow embedding of [digitalocean/datasource_digitalocean_droplets.go]:
    the paginated lookup of the droplets carrying a tag
    ([dataSourceDigitalOceanDropletsRead]) and the flattening of the fetched
    droplets into the records stored under the [droplets] attribute
    ([dropletsDecriptionAttributes]).

    The routine talks to two collaborators, the API client and the
    framework's resource data, and loops for as long as the API reports
    further pages.  It is therefore written as an interaction tree whose
    events are the calls to these collaborators; the events are given their
    meaning by a handler over an explicit world state. *)

From Stdlib Require Import ZArith String Ascii List Lia.
From Stdlib Require Import Floats.PrimFloat DecimalString.
From stdpp Require Import gmap strings list fin_maps.
From ITree Require Import ITree ITreeFacts Events.State Events.StateFacts.
From Paco Require Import paco.

Local Open Scope Z_scope.
Local Open Scope string_scope.
Local Open Scope list_scope.

(** ** Go's [int], [error] and the two library string functions *)

Module GoInt.
(** [int] is taken as the 64-bit signed integer of the usual targets. *)
Definition min_int : Z := - 2 ^ 63.
Definition max_int : Z := 2 ^ 63 - 1.

Definition wrap (z : Z) : Z := (z + 2 ^ 63) mod 2 ^ 64 - 2 ^ 63.

(** [a + b] on [int]: the sum wraps around. *)
Definition add (a b : Z) : Z := wrap (a + b).
End GoInt.

(** An [error] value, identified with the message its [Error()] reports. *)
Inductive error : Type :=
| NewError (msg : string).

Definition Error (e : error) : string :=
  match e with NewError msg => msg end.

(** [fmt.Errorf(prefix + "%s", err)]. *)
Definition Errorf (prefix : string) (err : error) : error :=
  NewError (String.append prefix (Error err)).

(** [strconv.Itoa]: the decimal digits, with a leading minus sign for a
    negative number. *)
Definition Itoa (n : Z) : string :=
  NilZero.string_of_int (Z.to_int n).

(** [strings.ToLower], on the ASCII letters (bytes outside [A-Z] are kept).
    Go's function lower-cases the letters outside ASCII as well, which can
    change the number of bytes; the two agree on ASCII strings. *)
Definition toLowerByte (c : ascii) : ascii :=
  let n := N_of_ascii c in
  if ((65 <=? n) && (n <=? 90))%N then ascii_of_N (n + 32) else c.

Fixpoint ToLower (s : string) : string :=
  match s with
  | EmptyString => EmptyString
  | String c rest => String (toLowerByte c) (ToLower rest)
  end.

(** ** The API client's data ([godo]) *)

Module godo.

Record Region : Type := { Region_Slug : string }.

Record Image : Type := { Image_ID : Z; Image_Slug : string }.

Record Size : Type :=
  { Size_Slug : string;
    Size_PriceHourly : float;
    Size_PriceMonthly : float }.

Inductive Family : Type := V4 | V6.

Definition Family_eqb (a b : Family) : bool :=
  match a, b with
  | V4, V4 | V6, V6 => true
  | _, _ => false
  end.

(** A network interface: its family, its scope ([Type], "public" or
    "private") and its address. *)
Record Interface : Type :=
  { Interface_Family : Family;
    Interface_Type : string;
    Interface_IPAddress : string }.

(** The instance as the data source reads it.  [Features] is a slice that
    may be [nil] ([None]), which the code tells apart from an empty one.
    The region, the image and the size are taken as present and held by
    value. *)
Record Droplet : Type :=
  { Droplet_ID : Z;
    Droplet_Name : string;
    Droplet_Memory : Z;
    Droplet_Vcpus : Z;
    Droplet_Disk : Z;
    Droplet_Region : Region;
    Droplet_Image : Image;
    Droplet_Size : Size;
    Droplet_Features : option (list string);
    Droplet_Locked : bool;
    Droplet_Status : string;
    Droplet_Networks : list Interface;
    Droplet_Tags : list string;
    Droplet_VolumeIDs : list string }.

(** [droplet.URN()]: the uniform resource name, built from the resource
    kind and the identifier. *)
Definition URN (d : Droplet) : string :=
  String.append "do:droplet:" (Itoa (Droplet_ID d)).

Record ListOptions : Type := { Page : Z; PerPage : Z }.

(** The pagination links of a response, by what their two methods
    return: [IsLastPage()] and [CurrentPage()], the latter a page number
    together with a possible parse error. *)
Record Links : Type :=
  { IsLastPage : bool;
    CurrentPage : Z * option error }.

(** [resp.Links] may be [nil]. *)
Record Response : Type := { Response_Links : option Links }.

End godo.
Import godo.

(** ** The output record *)

(** Modelled from the spec: [flattenTags] is declared elsewhere in the
    provider; only its signature, from a tag list to a container, is known.
    The container is represented by the tag list it was built from. *)
Inductive TagContainer : Type :=
| FlattenedTags (tags : list string).

Definition flattenTags (tags : list string) : TagContainer :=
  FlattenedTags tags.

(** Modelled from the spec: [flattenDigitalOceanDropletVolumeIds] is declared
    elsewhere in the provider; it turns the attached-volume identifiers into
    a set of strings, in which duplicates collapse and order is lost. *)
Definition flattenDigitalOceanDropletVolumeIds (volumeids : list string)
  : gset string :=
  list_to_set volumeids.

(** The values a [map[string]interface{}] record holds here. *)
Inductive Value : Type :=
| VString (s : string)
| VInt (n : Z)
| VFloat (f : float)
| VBool (b : bool)
| VSet (s : gset string)
| VTags (c : TagContainer).

Abbreviation OutputRecord := (gmap string Value).

(** Modelled from the spec: [findIPv4AddrByType] and [findIPv6AddrByType] are
    declared elsewhere in the provider.  They search the instance's interface
    list for the first entry of the family whose scope is [addrType] and
    return its address; the empty string stands for "not found". *)
Definition matchesInterface (fam : Family) (addrType : string)
    (addr : Interface) : bool :=
  Family_eqb (Interface_Family addr) fam
  && String.eqb (Interface_Type addr) addrType.

Fixpoint findAddrByType (fam : Family) (addrType : string)
    (networks : list Interface) : string :=
  match networks with
  | [] => ""
  | addr :: rest =>
      if matchesInterface fam addrType addr
      then Interface_IPAddress addr
      else findAddrByType fam addrType rest
  end.

Definition findIPv4AddrByType (d : Droplet) (addrType : string) : string :=
  findAddrByType V4 addrType (Droplet_Networks d).

Definition findIPv6AddrByType (d : Droplet) (addrType : string) : string :=
  findAddrByType V6 addrType (Droplet_Networks d).

(** Modelled from the spec: [containsDigitalOceanDropletFeature] is declared
    elsewhere in the provider; it tells whether the literal flag name
    appears in the feature list. *)
Fixpoint containsDigitalOceanDropletFeature (features : list string)
    (name : string) : bool :=
  match features with
  | [] => false
  | f :: rest =>
      if String.eqb f name then true
      else containsDigitalOceanDropletFeature rest name
  end.

(** The body of the loop of [dropletsDecriptionAttributes]: the record built
    for one droplet. *)
Definition dropletMapping (droplet : Droplet) : OutputRecord :=
  let mapping : OutputRecord :=
    <["locked" := VBool (Droplet_Locked droplet)]>
    (<["status" := VString (Droplet_Status droplet)]>
    (<["memory" := VInt (Droplet_Memory droplet)]>
    (<["vcpus" := VInt (Droplet_Vcpus droplet)]>
    (<["disk" := VInt (Droplet_Disk droplet)]>
    (<["price_monthly" := VFloat (Size_PriceMonthly (Droplet_Size droplet))]>
    (<["price_hourly" := VFloat (Size_PriceHourly (Droplet_Size droplet))]>
    (<["size" := VString (Size_Slug (Droplet_Size droplet))]>
    (<["region" := VString (Region_Slug (Droplet_Region droplet))]>
    (<["urn" := VString (URN droplet)]>
    (<["name" := VString (Droplet_Name droplet)]> ∅)))))))))) in
  let mapping : OutputRecord :=
    if String.eqb (Image_Slug (Droplet_Image droplet)) ""
    then <["image" := VString (Itoa (Image_ID (Droplet_Image droplet)))]> mapping
    else <["image" := VString (Image_Slug (Droplet_Image droplet))]> mapping in
  let mapping : OutputRecord :=
    let publicIPv4 := findIPv4AddrByType droplet "public" in
    if negb (String.eqb publicIPv4 "")
    then <["ipv4_address" := VString publicIPv4]> mapping
    else mapping in
  let mapping : OutputRecord :=
    let privateIPv4 := findIPv4AddrByType droplet "private" in
    if negb (String.eqb privateIPv4 "")
    then <["ipv4_address_private" := VString privateIPv4]> mapping
    else mapping in
  let mapping : OutputRecord :=
    let publicIPv6 := findIPv6AddrByType droplet "public" in
    if negb (String.eqb publicIPv6 "")
    then <["ipv6_address" := VString (ToLower publicIPv6)]> mapping
    else mapping in
  let mapping : OutputRecord :=
    let privateIPv6 := findIPv6AddrByType droplet "private" in
    if negb (String.eqb privateIPv6 "")
    then <["ipv6_address_private" := VString (ToLower privateIPv6)]> mapping
    else mapping in
  let mapping : OutputRecord :=
    match Droplet_Features droplet with
    | Some features =>
        <["monitoring" :=
            VBool (containsDigitalOceanDropletFeature features "monitoring")]>
        (<["private_networking" :=
            VBool (containsDigitalOceanDropletFeature features "private_networking")]>
        (<["ipv6" :=
            VBool (containsDigitalOceanDropletFeature features "ipv6")]>
        (<["backups" :=
            VBool (containsDigitalOceanDropletFeature features "backups")]>
         mapping)))
    | None => mapping
    end in
  let mapping : OutputRecord :=
    <["volume_ids" :=
        VSet (flattenDigitalOceanDropletVolumeIds (Droplet_VolumeIDs droplet))]>
    mapping in
  <["tags" := VTags (flattenTags (Droplet_Tags droplet))]> mapping.

(** The loop itself: [s] starts empty and every droplet's record is
    appended to it. *)
Definition flattenDroplets (droplets : list Droplet) : list OutputRecord :=
  fold_left (fun s droplet => (s ++ [dropletMapping droplet])%list) droplets [].

(** ** The calls to the collaborators *)

(** What [client.Droplets.ListByTag] returns: the droplets of the page, the
    response and the error. *)
Definition Reply : Type := list Droplet * Response * option error.

Definition Reply_droplets (r : Reply) : list Droplet := fst (fst r).
Definition Reply_resp (r : Reply) : Response := snd (fst r).
Definition Reply_err (r : Reply) : option error := snd r.

(** A page request: the tag and the paging options it was issued with. *)
Definition Request : Type := string * ListOptions.

Variant hostE : Type -> Type :=
| Droplets_ListByTag (tag : string) (opts : ListOptions) : hostE Reply
| d_Get (key : string) : hostE string
| resource_UniqueId : hostE string
| d_SetId (id : string) : hostE unit
| d_Set (key : string) (value : list OutputRecord) : hostE (option error).

Local Notation "'let*' x ':=' t 'in' k" :=
  (ITree.bind t (fun x => k))
  (at level 10, x name, t at level 100, k at level 200, only parsing).

(** ** The routine *)

(** How one iteration of the loop of [dataSourceDigitalOceanDropletsRead]
    ends. *)
Inductive Iteration : Type :=
| Return (err : error)
| Break (dropletList : list Droplet)
| Next (opts : ListOptions) (dropletList : list Droplet).

(** The loop body after the call to [ListByTag]. *)
Definition afterListByTag (opts : ListOptions) (dropletList : list Droplet)
    (reply : Reply) : Iteration :=
  let '(droplets, resp, err) := reply in
  match err with
  | Some err => Return (Errorf "Error retrieving droplets: " err)
  | None =>
      let dropletList :=
        fold_left (fun l droplet => (l ++ [droplet])%list) droplets dropletList in
      match Response_Links resp with
      | None => Break dropletList
      | Some links =>
          if IsLastPage links then Break dropletList
          else
            let '(page, err) := CurrentPage links in
            match err with
            | Some err => Return (Errorf "Error retrieving droplets: " err)
            | None =>
                Next {| Page := GoInt.add page 1; PerPage := PerPage opts |}
                     dropletList
            end
      end
  end.

Definition fetchIteration (tag : string) (st : ListOptions * list Droplet)
  : itree hostE ((ListOptions * list Droplet) + (error + list Droplet)) :=
  let* reply := ITree.trigger (Droplets_ListByTag tag (fst st)) in
  match afterListByTag (fst st) (snd st) reply with
  | Return err => Ret (inr (inl err))
  | Break dropletList => Ret (inr (inr dropletList))
  | Next opts dropletList => Ret (inl (opts, dropletList))
  end.

(** Lines 152 to 180: the paging options, the accumulator and the loop.  The
    result is the error the routine returns from inside the loop, or the
    droplet list the loop was left with. *)
Definition fetchDroplets (tag : string) : itree hostE (error + list Droplet) :=
  ITree.iter (fetchIteration tag) ({| Page := 1; PerPage := 200 |}, []).

Definition dropletsDecriptionAttributes (droplets : list Droplet)
  : itree hostE (option error) :=
  let s := flattenDroplets droplets in
  let* id := ITree.trigger resource_UniqueId in
  let* _ := ITree.trigger (d_SetId id) in
  let* err := ITree.trigger (d_Set "droplets" s) in
  match err with
  | Some err => Ret (Some err)
  | None => Ret None
  end.

Definition dataSourceDigitalOceanDropletsRead : itree hostE (option error) :=
  let* tag := ITree.trigger (d_Get "tag") in
  let* fetched := fetchDroplets tag in
  match fetched with
  | inl err => Ret (Some err)
  | inr dropletList => dropletsDecriptionAttributes dropletList
  end.

(** ** Reading a reply *)

(** The three ways a reply ends an iteration, read off the reply alone.
    [morePages] gives the reported current page of a reply after which the
    loop goes on; [lastPage] tells a reply that ends the pagination, because
    it has no links or reports itself as the last page; [failure] gives the
    error of a failed request or of a current page that does not parse. *)
Definition morePages (reply : Reply) : option Z :=
  match Reply_err reply, Response_Links (Reply_resp reply) with
  | None, Some links =>
      if IsLastPage links then None
      else match CurrentPage links with
           | (page, None) => Some page
           | (_, Some _) => None
           end
  | _, _ => None
  end.

Definition continues (reply : Reply) : bool :=
  match morePages reply with Some _ => true | None => false end.

Definition lastPage (reply : Reply) : bool :=
  match Reply_err reply, Response_Links (Reply_resp reply) with
  | None, None => true
  | None, Some links => IsLastPage links
  | Some _, _ => false
  end.

Definition failure (reply : Reply) : option error :=
  match Reply_err reply, Response_Links (Reply_resp reply) with
  | Some err, _ => Some err
  | None, Some links =>
      if IsLastPage links then None else snd (CurrentPage links)
  | None, None => None
  end.

(** The options of the request that follows [reply]. *)
Definition followUp (opts : ListOptions) (reply : Reply) : ListOptions :=
  match morePages reply with
  | Some page => {| Page := GoInt.add page 1; PerPage := PerPage opts |}
  | None => opts
  end.

(** The requests issued when the replies come in this order. *)
Fixpoint pageRequests (tag : string) (opts : ListOptions)
    (replies : list Reply) : list Request :=
  match replies with
  | [] => []
  | reply :: rest => (tag, opts) :: pageRequests tag (followUp opts reply) rest
  end.

Definition fetched (replies : list Reply) : list Droplet :=
  List.concat (List.map Reply_droplets replies).

(** ** The world the routine runs in *)

(** The framework's resource data: the configured string attributes, the
    identifier of the snapshot and the list attributes written so far. *)
Record ResourceData : Type :=
  { rd_config : gmap string string;
    rd_id : string;
    rd_lists : gmap string (list OutputRecord) }.

Section Host.

(** The API is a state machine answering page requests.  The framework
    hands out identifiers, and checks every element of a list against the
    schema of the attribute it is written to. *)
Context {ApiState : Type}.
Context (list_by_tag : ApiState -> string -> ListOptions -> ApiState * Reply).
Context (unique_id : nat -> string).
Context (element_error : string -> OutputRecord -> option error).

(** Besides the two collaborators' states, the world records the page
    requests issued and the calls made to [d.Set]. *)
Record World : Type :=
  { w_api : ApiState;
    w_requests : list Request;
    w_issued : nat;
    w_data : ResourceData;
    w_sets : list (string * list OutputRecord) }.

(** The error of [d.Set key value], if any: that of the first element the
    schema rejects. *)
Fixpoint write_error (key : string) (value : list OutputRecord)
  : option error :=
  match value with
  | [] => None
  | elem :: rest =>
      match element_error key elem with
      | Some err => Some err
      | None => write_error key rest
      end
  end.

(** What each call does to the world.  A write that is rejected leaves the
    list attributes as they were. *)
Definition handle : hostE ~> Monads.stateT World (itree void1) :=
  fun _ e w =>
    match e with
    | Droplets_ListByTag tag opts =>
        Ret ({| w_api := fst (list_by_tag (w_api w) tag opts);
                w_requests := w_requests w ++ [(tag, opts)];
                w_issued := w_issued w;
                w_data := w_data w;
                w_sets := w_sets w |},
             snd (list_by_tag (w_api w) tag opts))
    | d_Get key =>
        Ret (w, default "" (rd_config (w_data w) !! key))
    | resource_UniqueId =>
        Ret ({| w_api := w_api w;
                w_requests := w_requests w;
                w_issued := S (w_issued w);
                w_data := w_data w;
                w_sets := w_sets w |}, unique_id (w_issued w))
    | d_SetId id =>
        Ret ({| w_api := w_api w;
                w_requests := w_requests w;
                w_issued := w_issued w;
                w_data := {| rd_config := rd_config (w_data w);
                             rd_id := id;
                             rd_lists := rd_lists (w_data w) |};
                w_sets := w_sets w |}, tt)
    | d_Set key value =>
        match write_error key value with
        | Some err =>
            Ret ({| w_api := w_api w;
                    w_requests := w_requests w;
                    w_issued := w_issued w;
                    w_data := w_data w;
                    w_sets := w_sets w ++ [(key, value)] |}, Some err)
        | None =>
            Ret ({| w_api := w_api w;
                    w_requests := w_requests w;
                    w_issued := w_issued w;
                    w_data :=
                      {| rd_config := rd_config (w_data w);
                         rd_id := rd_id (w_data w);
                         rd_lists := <[key := value]> (rd_lists (w_data w)) |};
                    w_sets := w_sets w ++ [(key, value)] |}, None)
        end
    end.

Definition run {R : Type} (t : itree hostE R) (w : World)
  : itree void1 (World * R) :=
  interp_state handle t w.

(** The API, asked for the pages one after the other as the pagination
    prescribes, answers with [replies]. *)
Fixpoint Serves (api : ApiState) (tag : string) (opts : ListOptions)
    (replies : list Reply) : Prop :=
  match replies with
  | [] => True
  | reply :: rest =>
      snd (list_by_tag api tag opts) = reply
      /\ Serves (fst (list_by_tag api tag opts)) tag (followUp opts reply) rest
  end.

Fixpoint apiAfter (api : ApiState) (tag : string) (opts : ListOptions)
    (replies : list Reply) : ApiState :=
  match replies with
  | [] => api
  | reply :: rest =>
      apiAfter (fst (list_by_tag api tag opts)) tag (followUp opts reply) rest
  end.

(** The world once the requests answered by [replies] have been made. *)
Definition requested (w : World) (tag : string) (opts : ListOptions)
    (replies : list Reply) : World :=
  {| w_api := apiAfter (w_api w) tag opts replies;
     w_requests := w_requests w ++ pageRequests tag opts replies;
     w_issued := w_issued w;
     w_data := w_data w;
     w_sets := w_sets w |}.

(** The world once [value] has been stored by [dropletsDecriptionAttributes],
    with or without success. *)
Definition stored (w : World) (value : list OutputRecord) : World :=
  {| w_api := w_api w;
     w_requests := w_requests w;
     w_issued := S (w_issued w);
     w_data :=
       {| rd_config := rd_config (w_data w);
          rd_id := unique_id (w_issued w);
          rd_lists :=
            match write_error "droplets" value with
            | Some _ => rd_lists (w_data w)
            | None => <["droplets" := value]> (rd_lists (w_data w))
            end |};
     w_sets := w_sets w ++ [("droplets", value)] |}.

End Host.

Arguments World : clear implicits.

(** ** What the claims speak of *)

(** What an address key holds, given the first matching interface. *)
Definition addressValue (post : string -> string) (found : option Interface)
  : option Value :=
  match found with
  | Some addr =>
      if String.eqb (Interface_IPAddress addr) "" then None
      else Some (VString (post (Interface_IPAddress addr)))
  | None => None
  end.

Definition firstInterface (fam : Family) (addrType : string)
    (droplet : Droplet) : option Interface :=
  List.find (matchesInterface fam addrType) (Droplet_Networks droplet).

(** The four address keys with the family and scope each one looks for and
    what is done to the address found. *)
Definition addressFields : list (string * Family * string * (string -> string)) :=
  [ ("ipv4_address", V4, "public", fun s => s);
    ("ipv4_address_private", V4, "private", fun s => s);
    ("ipv6_address", V6, "public", ToLower);
    ("ipv6_address_private", V6, "private", ToLower) ].

Definition featureFlags : list string :=
  [ "backups"; "ipv6"; "private_networking"; "monitoring" ].

(** ** The schema *)

(** [schema.ValueType]. *)
Inductive ValueType : Type :=
| TypeInvalid
| TypeBool
| TypeInt
| TypeFloat
| TypeString
| TypeList
| TypeMap
| TypeSet.

(** The validation functions the file names. *)
Inductive SchemaValidateFunc : Type :=
| validation_NoZeroValues.

(** [schema.Schema], with the fields the file sets; a field left out has
    Go's zero value.  [Elem] is absent, a schema or a resource, of which an
    element resource has its schema only. *)
Inductive Schema : Type :=
| mkSchema (type : ValueType) (required computed : bool)
           (description : string) (validateFunc : option SchemaValidateFunc)
           (elem : SchemaElem)
with SchemaElem : Type :=
| NoElem
| ElemSchema (s : Schema)
| ElemResource (fields : list (string * Schema)).

Definition Schema_Type (s : Schema) : ValueType :=
  match s with mkSchema type _ _ _ _ _ => type end.

Definition Schema_Required (s : Schema) : bool :=
  match s with mkSchema _ required _ _ _ _ => required end.

Definition Schema_Computed (s : Schema) : bool :=
  match s with mkSchema _ _ computed _ _ _ => computed end.

Definition Schema_Elem (s : Schema) : SchemaElem :=
  match s with mkSchema _ _ _ _ _ elem => elem end.

(** [schema.Resource]: the read function, when there is one, and the
    schema, a map written in the order of the source. *)
Record Resource : Type :=
  { Resource_Read : option (itree hostE (option error));
    Resource_Schema : list (string * Schema) }.

(** A field of the shape [{Type: t, Computed: true, Description: d}]. *)
Definition computedField (type : ValueType) (description : string) : Schema :=
  mkSchema type false true description None NoElem.

(** [tagsDataSourceSchema] is declared elsewhere in the provider and is taken
    as given. *)
Definition dataSourceDigitalOceanDroplets (tagsDataSourceSchema : Schema)
  : Resource :=
  {| Resource_Read := Some dataSourceDigitalOceanDropletsRead;
     Resource_Schema :=
       [ ("tag",
          mkSchema TypeString true false "tag associated to the droplets"
                   (Some validation_NoZeroValues) NoElem);
         ("droplets",
          mkSchema TypeList false true "List of droplet that match the tag" None
            (ElemResource
               [ ("name", computedField TypeString "name of the droplet");
                 ("urn",
                  computedField TypeString
                    "the uniform resource name for the Droplet");
                 ("region",
                  computedField TypeString
                    "the region that the droplet instance is deployed in");
                 ("image",
                  computedField TypeString "the image id or slug of the Droplet");
                 ("size",
                  computedField TypeString "the current size of the Droplet");
                 ("disk",
                  computedField TypeInt
                    "the size of the droplets disk in gigabytes");
                 ("vcpus", computedField TypeInt "the number of virtual cpus");
                 ("memory",
                  computedField TypeInt "memory of the droplet in megabytes");
                 ("price_hourly",
                  computedField TypeFloat "the droplets hourly price");
                 ("price_monthly",
                  computedField TypeFloat "the droplets monthly price");
                 ("status",
                  computedField TypeString "state of the droplet instance");
                 ("locked",
                  computedField TypeBool "whether the droplet has been locked");
                 ("ipv4_address",
                  computedField TypeString "the droplets public ipv4 address");
                 ("ipv4_address_private",
                  computedField TypeString "the droplets private ipv4 address");
                 ("ipv6_address",
                  computedField TypeString "the droplets public ipv6 address");
                 ("ipv6_address_private",
                  computedField TypeString "the droplets private ipv4 address");
                 ("backups",
                  computedField TypeBool
                    "whether the droplet has backups enabled");
                 ("ipv6",
                  computedField TypeBool "whether the droplet has ipv6 enabled");
                 ("private_networking",
                  computedField TypeBool
                    "whether the droplet has private networking enabled");
                 ("monitoring",
                  computedField TypeBool
                    "whether the droplet has monitoring enabled");
                 ("volume_ids",
                  mkSchema TypeSet false true
                    "list of volumes attached to the droplet" None
                    (ElemSchema
                       (mkSchema TypeString false false "" None NoElem)));
                 ("tags", tagsDataSourceSchema) ]) ) ] |}.

(** The fields of the element resource of the list attribute [key]. *)
Definition elementFields (r : Resource) (key : string)
  : list (string * Schema) :=
  match (list_to_map (Resource_Schema r) : gmap string Schema) !! key with
  | Some s =>
      match Schema_Elem s with
      | ElemResource fields => fields
      | _ => []
      end
  | None => []
  end.

(** A value fits a field when it has the Go type the field's [Type] stands
    for; a set of strings fits a [TypeSet] of [TypeString] elements, and the
    tag container fits the field [tagsDataSourceSchema] declares. *)
Definition fits (tagsDataSourceSchema : Schema) (v : Value) (s : Schema)
  : Prop :=
  match v with
  | VString _ => Schema_Type s = TypeString
  | VInt _ => Schema_Type s = TypeInt
  | VFloat _ => Schema_Type s = TypeFloat
  | VBool _ => Schema_Type s = TypeBool
  | VSet _ =>
      Schema_Type s = TypeSet
      /\ exists e, Schema_Elem s = ElemSchema e /\ Schema_Type e = TypeString
  | VTags _ => s = tagsDataSourceSchema
  end.

(** ** The writes of [dropletMapping], as a list *)

(** The key and value of every write [dropletMapping] makes for a droplet,
    the latest first. *)
Definition dropletEntries (droplet : Droplet) : list (string * Value) :=
  [ ("tags", VTags (flattenTags (Droplet_Tags droplet)));
    ("volume_ids",
     VSet (flattenDigitalOceanDropletVolumeIds (Droplet_VolumeIDs droplet))) ]
  ++ match Droplet_Features droplet with
     | Some features =>
         [ ("monitoring",
            VBool (containsDigitalOceanDropletFeature features "monitoring"));
           ("private_networking",
            VBool (containsDigitalOceanDropletFeature features
                     "private_networking"));
           ("ipv6", VBool (containsDigitalOceanDropletFeature features "ipv6"));
           ("backups",
            VBool (containsDigitalOceanDropletFeature features "backups")) ]
     | None => []
     end
  ++ (if negb (String.eqb (findIPv6AddrByType droplet "private") "")
      then [ ("ipv6_address_private",
              VString (ToLower (findIPv6AddrByType droplet "private"))) ]
      else [])
  ++ (if negb (String.eqb (findIPv6AddrByType droplet "public") "")
      then [ ("ipv6_address",
              VString (ToLower (findIPv6AddrByType droplet "public"))) ]
      else [])
  ++ (if negb (String.eqb (findIPv4AddrByType droplet "private") "")
      then [ ("ipv4_address_private",
              VString (findIPv4AddrByType droplet "private")) ]
      else [])
  ++ (if negb (String.eqb (findIPv4AddrByType droplet "public") "")
      then [ ("ipv4_address", VString (findIPv4AddrByType droplet "public")) ]
      else [])
  ++ [ ("image",
        VString (if String.eqb (Image_Slug (Droplet_Image droplet)) ""
                 then Itoa (Image_ID (Droplet_Image droplet))
                 else Image_Slug (Droplet_Image droplet)));
       ("locked", VBool (Droplet_Locked droplet));
       ("status", VString (Droplet_Status droplet));
       ("memory", VInt (Droplet_Memory droplet));
       ("vcpus", VInt (Droplet_Vcpus droplet));
       ("disk", VInt (Droplet_Disk droplet));
       ("price_monthly", VFloat (Size_PriceMonthly (Droplet_Size droplet)));
       ("price_hourly", VFloat (Size_PriceHourly (Droplet_Size droplet)));
       ("size", VString (Size_Slug (Droplet_Size droplet)));
       ("region", VString (Region_Slug (Droplet_Region droplet)));
       ("urn", VString (URN droplet));
       ("name", VString (Droplet_Name droplet)) ].

(** The number of optional keys a droplet's record gets. *)
Definition optionalKeys (droplet : Droplet) : nat :=
  length (List.filter (fun '(_, fam, addrType, _) =>
                         negb (String.eqb
                                 (findAddrByType fam addrType
                                    (Droplet_Networks droplet)) ""))
                      addressFields)
  + match Droplet_Features droplet with
    | Some _ => length featureFlags
    | None => 0
    end.

(** An upper-case ASCII letter. *)
Definition isUpperByte (c : ascii) : bool :=
  ((65 <=? N_of_ascii c) && (N_of_ascii c <=? 90))%N.

(** ** One turn of a loop that goes on *)

(** The world and the loop state after a request whose reply announces a
    further page. *)
Definition turn {ApiState : Type}
    (list_by_tag : ApiState -> string -> ListOptions -> ApiState * Reply)
    (tag : string) (ws : World ApiState * (ListOptions * list Droplet))
  : World ApiState * (ListOptions * list Droplet) :=
  let reply := snd (list_by_tag (w_api (fst ws)) tag (fst (snd ws))) in
  (requested list_by_tag (fst ws) tag (fst (snd ws)) [reply],
   (followUp (fst (snd ws)) reply, snd (snd ws) ++ Reply_droplets reply)).

(** ** Sample data *)

Module Samples.

Definition interface (fam : Family) (addrType address : string) : Interface :=
  {| Interface_Family := fam;
     Interface_Type := addrType;
     Interface_IPAddress := address |}.

Definition droplet (id : Z) (name : string) (image : Image)
    (features : option (list string)) (networks : list Interface) : Droplet :=
  {| Droplet_ID := id;
     Droplet_Name := name;
     Droplet_Memory := 1024;
     Droplet_Vcpus := 1;
     Droplet_Disk := 25;
     Droplet_Region := {| Region_Slug := "nyc3" |};
     Droplet_Image := image;
     Droplet_Size :=
       {| Size_Slug := "s-1vcpu-1gb";
          Size_PriceHourly := 0.0078125%float;
          Size_PriceMonthly := 5%float |};
     Droplet_Features := features;
     Droplet_Locked := false;
     Droplet_Status := "active";
     Droplet_Networks := networks;
     Droplet_Tags := ["web"];
     Droplet_VolumeIDs := [] |}.

(** The two instances of the spec's scenario. *)
Definition web1 : Droplet :=
  droplet 101 "web-1" {| Image_ID := 777; Image_Slug := "ubuntu-20-04" |}
    (Some ["ipv6"; "monitoring"])
    [ interface V4 "private" "10.132.0.2";
      interface V4 "public" "10.0.0.1";
      interface V6 "public" "2604:A880:0800:0010::1" ].

Definition web2 : Droplet :=
  droplet 102 "web-2" {| Image_ID := 12345; Image_Slug := "" |} None [].

(** An instance whose public v4 interface carries no address yet. *)
Definition web3 : Droplet :=
  droplet 103 "web-3" {| Image_ID := 12345; Image_Slug := "" |} (Some [])
    [ interface V4 "public" "" ].

Definition links (page : Z) (last : bool) : Response :=
  {| Response_Links :=
       Some {| IsLastPage := last; CurrentPage := (page, None) |} |}.

Definition noLinks : Response := {| Response_Links := None |}.

Definition page1 : Reply := ([web1; web2], links 1 false, None).
Definition page2 : Reply := ([web3], links 2 false, None).
Definition page3 : Reply := ([], links 3 true, None).
Definition unavailable : Reply :=
  ([], noLinks, Some (NewError "503 Service Unavailable")).
Definition malformed : Reply :=
  ([web1],
   {| Response_Links :=
        Some {| IsLastPage := false;
                CurrentPage := (0, Some (NewError "strconv.Atoi: invalid syntax")) |} |},
   None).
Definition nothing : Reply := ([], noLinks, None).
Definition single : Reply := ([web1; web2], noLinks, None).

(** Stateless APIs, answering by page number. *)
Definition byPage (first second third : Reply)
    (_ : unit) (tag : string) (opts : ListOptions) : unit * Reply :=
  (tt,
   if Z.eqb (Page opts) 1 then first
   else if Z.eqb (Page opts) 2 then second
   else if Z.eqb (Page opts) 3 then third
   else unavailable).

Definition threePages := byPage page1 page2 page3.
Definition secondFails := byPage page1 unavailable page3.
Definition secondMalformed := byPage page1 malformed page3.
Definition noDroplets := byPage nothing unavailable unavailable.
Definition onePage := byPage single unavailable unavailable.

Definition uniqueId (n : nat) : string :=
  String.append "terraform-" (Itoa (Z.of_nat n)).

Definition acceptAll (key : string) (elem : OutputRecord) : option error :=
  None.

Definition rejectAll (key : string) (elem : OutputRecord) : option error :=
  Some (NewError (String.append key ": invalid element")).

Definition start : World unit :=
  {| w_api := tt;
     w_requests := [];
     w_issued := 0;
     w_data :=
       {| rd_config := {[ "tag" := "web" ]};
          rd_id := "";
          rd_lists := ∅ |};
     w_sets := [] |}.

(** An instance with an address of every family and scope. *)
Definition web4 : Droplet :=
  droplet 104 "web-4" {| Image_ID := 777; Image_Slug := "ubuntu-20-04" |}
    (Some ["backups"])
    [ interface V4 "public" "10.0.0.4";
      interface V4 "private" "10.132.0.4";
      interface V6 "public" "2604:A880:0800:0010::4";
      interface V6 "private" "FD00::4" ].

(** Two instances with two public v4 interfaces each, of which one has no
    address yet: the second one for [web5], the first one for [web6]. *)
Definition web5 : Droplet :=
  droplet 105 "web-5" {| Image_ID := 12345; Image_Slug := "" |} (Some [])
    [ interface V4 "public" "10.0.0.9"; interface V4 "public" "" ].

Definition web6 : Droplet :=
  droplet 106 "web-6" {| Image_ID := 12345; Image_Slug := "" |} (Some [])
    [ interface V4 "public" ""; interface V4 "public" "10.0.0.9" ].

(** An API that announces a further page after every page. *)
Definition endless (_ : unit) (tag : string) (opts : ListOptions)
  : unit * Reply :=
  (tt, ([web1], links (Page opts) false, None)).

End Samples.

(** ** The flattening of one droplet *)

Section Flattening.

Implicit Types (droplet : Droplet) (mapping : OutputRecord).

(** A write guarded by a test leaves the other keys alone. *)
Lemma lookup_insert_if (b : bool) (k k' : string) (v : Value) mapping :
  k' ≠ k ->
  (if b then <[k' := v]> mapping else mapping) !! k = mapping !! k.
Proof. intros Hne. destruct b; [by rewrite lookup_insert_ne|done]. Qed.

Lemma lookup_insert_if_eq (b : bool) (k : string) (v : Value) mapping :
  mapping !! k = None ->
  (if b then <[k := v]> mapping else mapping) !! k
  = if b then Some v else None.
Proof. intros Hk. destruct b; [by rewrite lookup_insert_eq|done]. Qed.

Lemma lookup_insert_either (b : bool) (k : string) (v v' : Value) mapping :
  (if b then <[k := v]> mapping else <[k := v']> mapping) !! k
  = Some (if b then v else v').
Proof. destruct b; by rewrite lookup_insert_eq. Qed.

Lemma lookup_insert_either_ne (b : bool) (k k' : string) (v v' : Value)
    mapping :
  k' ≠ k ->
  (if b then <[k' := v]> mapping else <[k' := v']> mapping) !! k
  = mapping !! k.
Proof. intros Hne. destruct b; by rewrite lookup_insert_ne. Qed.

(** The helper returns the address of the first matching interface. *)
Lemma findAddrByType_find fam addrType networks :
  findAddrByType fam addrType networks
  = match List.find (matchesInterface fam addrType) networks with
    | Some addr => Interface_IPAddress addr
    | None => ""
    end.
Proof.
  induction networks as [|addr rest IH]; simpl; [done|].
  by destruct (matchesInterface fam addrType addr).
Qed.

Lemma addressValue_find post fam addrType droplet :
  (if negb (String.eqb (findAddrByType fam addrType (Droplet_Networks droplet)) "")
   then Some (VString (post (findAddrByType fam addrType (Droplet_Networks droplet))))
   else None)
  = addressValue post (firstInterface fam addrType droplet).
Proof.
  unfold addressValue, firstInterface. rewrite findAddrByType_find.
  destruct (List.find _ _) as [addr|]; [|done].
  by destruct (String.eqb _ _).
Qed.

Lemma containsDigitalOceanDropletFeature_elem features name :
  containsDigitalOceanDropletFeature features name
  = bool_decide (name ∈ features).
Proof.
  induction features as [|f rest IH];
    cbn [containsDigitalOceanDropletFeature].
  - rewrite bool_decide_eq_false_2; [done|]. by intros ?%elem_of_nil.
  - destruct (String.eqb_spec f name) as [->|Hne].
    + rewrite bool_decide_eq_true_2; [done|]. by left.
    + rewrite IH. apply bool_decide_ext. rewrite elem_of_cons.
      split; [by right|]. by intros [->|?].
Qed.

End Flattening.

(** Steps over the writes of [dropletMapping] that concern other keys. *)
Ltac skip_writes :=
  repeat first
    [ rewrite lookup_insert_ne by discriminate
    | rewrite lookup_insert_if by discriminate
    | rewrite lookup_insert_either_ne by discriminate ].

(** Reads the key [k] off [dropletMapping], where it is written under the
    test of a found address. *)
Ltac read_address post :=
  unfold dropletMapping, findIPv4AddrByType, findIPv6AddrByType; cbv zeta;
  skip_writes;
  destruct (Droplet_Features _); skip_writes;
  rewrite lookup_insert_if_eq by (skip_writes; done);
  apply (addressValue_find post).

Lemma lookup_address droplet :
  Forall (fun '(key, fam, addrType, post) =>
            dropletMapping droplet !! key
            = addressValue post (firstInterface fam addrType droplet))
         addressFields.
Proof.
  repeat constructor.
  - read_address (fun s : string => s).
  - read_address (fun s : string => s).
  - read_address ToLower.
  - read_address ToLower.
Qed.

(** C3: the [image] key holds the image's slug when the slug is not empty,
    and the decimal digits of the image's numeric id when it is. *)
Theorem image_slug_or_id droplet :
  dropletMapping droplet !! "image"
  = Some (VString (if String.eqb (Image_Slug (Droplet_Image droplet)) ""
                   then Itoa (Image_ID (Droplet_Image droplet))
                   else Image_Slug (Droplet_Image droplet))).
Proof.
  unfold dropletMapping. cbv zeta. skip_writes.
  destruct (Droplet_Features droplet); skip_writes.
  all: rewrite lookup_insert_either; by destruct (String.eqb _ _).
Qed.

(** C4, as the code has it: each of the four address keys is read off the
    first interface of its family and scope; the key is present exactly when
    that interface exists and its address is not empty, and then holds the
    address, lower-cased for the two IPv6 keys. *)
Theorem address_fields_first_match droplet :
  dropletMapping droplet !! "ipv4_address"
  = addressValue (fun s => s) (firstInterface V4 "public" droplet)
  /\ dropletMapping droplet !! "ipv4_address_private"
     = addressValue (fun s => s) (firstInterface V4 "private" droplet)
  /\ dropletMapping droplet !! "ipv6_address"
     = addressValue ToLower (firstInterface V6 "public" droplet)
  /\ dropletMapping droplet !! "ipv6_address_private"
     = addressValue ToLower (firstInterface V6 "private" droplet).
Proof.
  pose proof (lookup_address droplet) as Hall.
  unfold addressFields in Hall.
  repeat (apply Forall_cons_1 in Hall as [? Hall]).
  by repeat split.
Qed.

(** C4 fails as stated: [web3] has a public v4 interface, yet its record has
    no [ipv4_address] key. *)
Lemma address_present_iff_interface_fails :
  ~ (is_Some (dropletMapping Samples.web3 !! "ipv4_address")
     <-> exists addr,
           In addr (Droplet_Networks Samples.web3)
           /\ matchesInterface V4 "public" addr = true).
Proof.
  intros [_ Hpresent].
  destruct Hpresent as [v Hv].
  - exists (Samples.interface V4 "public" ""). split; [by left|reflexivity].
  - vm_compute in Hv. discriminate.
Qed.

(** C5: without a feature list the record has none of the four flag keys;
    with one, even empty, it has all four, each telling whether its own name
    is in the list. *)
Theorem feature_flags droplet :
  match Droplet_Features droplet with
  | None =>
      Forall (fun name => dropletMapping droplet !! name = None) featureFlags
  | Some features =>
      Forall (fun name =>
                dropletMapping droplet !! name
                = Some (VBool (bool_decide (name ∈ features))))
             featureFlags
  end.
Proof.
  unfold dropletMapping, featureFlags. cbv zeta.
  destruct (Droplet_Features droplet) as [features|]; repeat constructor.
  all: skip_writes.
  all: try (rewrite lookup_insert_eq;
            by rewrite containsDigitalOceanDropletFeature_elem).
  all: apply lookup_empty.
Qed.

(** C10, as the code has it: when the first interface of the family and
    scope of an address key has an empty address, the key is left out, just
    as it is when no interface matches. *)
Theorem empty_address_omitted droplet key fam addrType post addr :
  In (key, fam, addrType, post) addressFields ->
  firstInterface fam addrType droplet = Some addr ->
  Interface_IPAddress addr = "" ->
  dropletMapping droplet !! key = None
  /\ forall droplet',
       firstInterface fam addrType droplet' = None ->
       dropletMapping droplet' !! key = dropletMapping droplet !! key.
Proof.
  intros Hkey Hfirst Haddr.
  assert (Hread : forall d, dropletMapping d !! key
                            = addressValue post (firstInterface fam addrType d)).
  { intros d. pose proof (lookup_address d) as Hall.
    rewrite List.Forall_forall in Hall. apply (Hall _ Hkey). }
  assert (Hnone : dropletMapping droplet !! key = None).
  { rewrite Hread, Hfirst. unfold addressValue. by rewrite Haddr. }
  split; [exact Hnone|].
  intros droplet' Hnomatch. by rewrite Hnone, Hread, Hnomatch.
Qed.

(** At [web6] the first public v4 interface has no address and the second
    has one: the key is left out all the same. *)
Lemma empty_address_omitted_witness :
  In ("ipv4_address", V4, "public", fun s : string => s) addressFields
  /\ firstInterface V4 "public" Samples.web6
     = Some (Samples.interface V4 "public" "")
  /\ In (Samples.interface V4 "public" "10.0.0.9")
        (Droplet_Networks Samples.web6)
  /\ dropletMapping Samples.web6 !! "ipv4_address" = None.
Proof.
  split; [by left|]. split; [reflexivity|]. split; [right; by left|].
  refine (proj1 (empty_address_omitted Samples.web6 "ipv4_address" V4 "public"
                   (fun s => s) (Samples.interface V4 "public" "") _ _ _)).
  - by left.
  - reflexivity.
  - reflexivity.
Defined.

(** C10 fails as stated: the interface list of [web5] contains a public v4
    entry whose address is empty, yet the record has the [ipv4_address] key,
    read off the public v4 entry that comes before it. *)
Lemma empty_address_entry_not_omitted :
  ~ ((exists addr,
         In addr (Droplet_Networks Samples.web5)
         /\ matchesInterface V4 "public" addr = true
         /\ Interface_IPAddress addr = "")
     -> dropletMapping Samples.web5 !! "ipv4_address" = None).
Proof.
  intros Homitted.
  assert (Hpresent : dropletMapping Samples.web5 !! "ipv4_address"
                     = Some (VString "10.0.0.9")) by reflexivity.
  rewrite Homitted in Hpresent; [discriminate|].
  exists (Samples.interface V4 "public" "").
  split; [right; by left|]. split; reflexivity.
Qed.

(** ** Reading a reply, against the loop body *)

Lemma fold_left_append {A : Type} (xs acc : list A) :
  fold_left (fun l x => (l ++ [x])%list) xs acc = (acc ++ xs)%list.
Proof.
  revert acc. induction xs as [|x xs IH]; intros acc; simpl.
  - by rewrite app_nil_r.
  - by rewrite IH, <- app_assoc.
Qed.

Lemma afterListByTag_more opts dropletList reply page :
  morePages reply = Some page ->
  afterListByTag opts dropletList reply
  = Next {| Page := GoInt.add page 1; PerPage := PerPage opts |}
         (dropletList ++ Reply_droplets reply).
Proof.
  destruct reply as [[droplets [links]] err].
  unfold morePages, afterListByTag, Reply_err, Reply_resp, Reply_droplets.
  simpl. rewrite fold_left_append.
  destruct err; [done|]. destruct links as [links|]; [|done].
  destruct (IsLastPage links); [done|].
  destruct (CurrentPage links) as [p [e|]]; [done|]. by intros [= ->].
Qed.

Lemma afterListByTag_last opts dropletList reply :
  lastPage reply = true ->
  afterListByTag opts dropletList reply
  = Break (dropletList ++ Reply_droplets reply).
Proof.
  destruct reply as [[droplets [links]] err].
  unfold lastPage, afterListByTag, Reply_err, Reply_resp, Reply_droplets.
  simpl. rewrite fold_left_append.
  destruct err; [done|]. destruct links as [links|]; [|done].
  by intros ->.
Qed.

Lemma afterListByTag_failure opts dropletList reply err :
  failure reply = Some err ->
  afterListByTag opts dropletList reply
  = Return (Errorf "Error retrieving droplets: " err).
Proof.
  destruct reply as [[droplets [links]] e].
  unfold failure, afterListByTag, Reply_err, Reply_resp, Reply_droplets.
  simpl.
  destruct e; [by intros [= ->]|]. destruct links as [links|]; [|done].
  destruct (IsLastPage links); [done|].
  destruct (CurrentPage links) as [p [e|]]; simpl; [by intros [= ->]|done].
Qed.

(** ** Go's [int] *)

(** Below the largest [int], adding one does not wrap. *)
Lemma GoInt_add_1 (page : Z) :
  GoInt.min_int <= page < GoInt.max_int -> GoInt.add page 1 = page + 1.
Proof.
  unfold GoInt.min_int, GoInt.max_int, GoInt.add, GoInt.wrap. intros Hrange.
  rewrite Z.mod_small by lia. lia.
Qed.

(** ** The requests of a pagination *)

Lemma followUp_PerPage opts reply :
  PerPage (followUp opts reply) = PerPage opts.
Proof. unfold followUp. by destruct (morePages reply). Qed.

Lemma pageRequests_length tag opts replies :
  length (pageRequests tag opts replies) = length replies.
Proof.
  revert opts. induction replies as [|reply rest IH]; intros opts; simpl;
    [done|by rewrite IH].
Qed.

Lemma pageRequests_first tag opts reply replies :
  pageRequests tag opts (reply :: replies) !! 0%nat = Some (tag, opts).
Proof. reflexivity. Qed.

(** The request after a page asks for the page it reported, plus one, with
    the page size unchanged. *)
Lemma pageRequests_next tag pages :
  forall opts (i : nat) reply page final rest,
    pages !! i = Some reply ->
    morePages reply = Some page ->
    pageRequests tag opts (pages ++ final :: rest) !! S i
    = Some (tag, {| Page := GoInt.add page 1; PerPage := PerPage opts |}).
Proof.
  induction pages as [|reply0 pages IH];
    intros opts i reply page final rest Hi Hpage; [done|].
  destruct i as [|i]; cbn in Hi.
  - injection Hi as ->. cbn [app pageRequests]. rewrite lookup_cons_ne_0 by done.
    cbn [Nat.pred]. unfold followUp at 1. rewrite Hpage.
    destruct pages; reflexivity.
  - cbn [app pageRequests]. rewrite lookup_cons_ne_0 by done. cbn [Nat.pred].
    rewrite (IH _ _ _ _ _ _ Hi Hpage). by rewrite followUp_PerPage.
Qed.

Lemma length_fetched replies :
  length (fetched replies)
  = sum_list (List.map (fun reply => length (Reply_droplets reply)) replies).
Proof.
  induction replies as [|reply rest IH]; [done|].
  unfold fetched in *. cbn [List.map List.concat sum_list sum_list_with].
  by rewrite length_app, IH.
Qed.

(** The loop of [dropletsDecriptionAttributes] maps [dropletMapping] over
    the droplets. *)
Lemma flattenDroplets_map droplets :
  flattenDroplets droplets = List.map dropletMapping droplets.
Proof.
  unfold flattenDroplets.
  assert (Hgen : forall s,
             fold_left (fun s droplet => s ++ [dropletMapping droplet]) droplets s
             = s ++ List.map dropletMapping droplets).
  { induction droplets as [|droplet rest IH]; intros s; simpl.
    - by rewrite app_nil_r.
    - by rewrite IH, <- app_assoc. }
  apply (Hgen []).
Qed.

Section HostFacts.

Context {ApiState : Type}.
Context (list_by_tag : ApiState -> string -> ListOptions -> ApiState * Reply).
Context (unique_id : nat -> string).
Context (element_error : string -> OutputRecord -> option error).

Local Abbreviation World := (World ApiState).
Local Abbreviation run := (run list_by_tag unique_id element_error).
Local Abbreviation requested := (requested list_by_tag).
Local Abbreviation stored := (stored unique_id element_error).
Local Abbreviation Serves := (Serves list_by_tag).
Local Abbreviation write_error := (write_error element_error).

Implicit Types (w : World) (opts : ListOptions) (replies : list Reply).

(** One turn of the loop: the request is made and logged, and the reply
    decides how the turn ends. *)
Lemma run_iteration tag opts dropletList w :
  run (ITree.iter (fetchIteration tag) (opts, dropletList)) w
  ≈ match afterListByTag opts dropletList
            (snd (list_by_tag (w_api w) tag opts)) with
    | Return err =>
        Ret (requested w tag opts [snd (list_by_tag (w_api w) tag opts)], inl err)
    | Break l =>
        Ret (requested w tag opts [snd (list_by_tag (w_api w) tag opts)], inr l)
    | Next opts' l =>
        run (ITree.iter (fetchIteration tag) (opts', l))
            (requested w tag opts [snd (list_by_tag (w_api w) tag opts)])
    end.
Proof.
  unfold run. rewrite unfold_iter. unfold fetchIteration at 1.
  rewrite bind_bind, interp_state_bind, interp_state_trigger.
  cbn. rewrite bind_ret_l. cbn.
  destruct (afterListByTag _ _ _).
  - rewrite bind_ret_l. cbn. by rewrite interp_state_ret.
  - rewrite bind_ret_l. cbn. by rewrite interp_state_ret.
  - rewrite bind_ret_l. cbn. by rewrite interp_state_tau, tau_eutt.
Qed.

Lemma requested_cons w tag opts reply reply' replies :
  requested (requested w tag opts [reply']) tag (followUp opts reply) replies
  = requested w tag opts (reply :: replies).
Proof. unfold requested. cbn. by rewrite <- app_assoc. Qed.

Lemma fetched_cons reply replies :
  fetched (reply :: replies) = (Reply_droplets reply ++ fetched replies)%list.
Proof. reflexivity. Qed.

Lemma fetched_app replies replies' :
  fetched (replies ++ replies') = (fetched replies ++ fetched replies')%list.
Proof. unfold fetched. by rewrite List.map_app, List.concat_app. Qed.

(** The loop over replies that all announce a further page, up to the
    reply that comes after them. *)
Lemma run_loop tag pages final :
  forall w opts dropletList,
    Serves (w_api w) tag opts (pages ++ [final]) ->
    forallb continues pages = true ->
    run (ITree.iter (fetchIteration tag) (opts, dropletList)) w
    ≈ match afterListByTag (fold_left followUp pages opts)
              (dropletList ++ fetched pages) final with
      | Return err => Ret (requested w tag opts (pages ++ [final]), inl err)
      | Break l => Ret (requested w tag opts (pages ++ [final]), inr l)
      | Next opts' l =>
          run (ITree.iter (fetchIteration tag) (opts', l))
              (requested w tag opts (pages ++ [final]))
      end.
Proof.
  induction pages as [|reply pages IH]; intros w opts dropletList Hserves Hmore.
  - destruct Hserves as [Hfinal _]. rewrite run_iteration.
    cbn [fold_left app]. rewrite Hfinal.
    unfold fetched. cbn [List.map List.concat]. by rewrite app_nil_r.
  - destruct Hserves as [Hreply Hserves].
    cbn [forallb] in Hmore. apply andb_prop in Hmore as [Hcont Hmore].
    unfold continues in Hcont.
    destruct (morePages reply) as [page|] eqn:Hpage; [|done].
    rewrite run_iteration. rewrite Hreply at 1.
    rewrite (afterListByTag_more _ _ _ _ Hpage).
    assert (Hnext : followUp opts reply
                    = {| Page := GoInt.add page 1; PerPage := PerPage opts |})
      by (unfold followUp; by rewrite Hpage).
    rewrite <- Hnext.
    rewrite (IH _ (followUp opts reply) (dropletList ++ Reply_droplets reply));
      [|exact Hserves|exact Hmore].
    rewrite requested_cons.
    cbn [fold_left app]. rewrite fetched_cons, <- app_assoc.
    reflexivity.
Qed.

Lemma run_fetch_last tag pages last w :
  Serves (w_api w) tag {| Page := 1; PerPage := 200 |} (pages ++ [last]) ->
  forallb continues pages = true ->
  lastPage last = true ->
  run (fetchDroplets tag) w
  ≈ Ret (requested w tag {| Page := 1; PerPage := 200 |} (pages ++ [last]),
         inr (fetched (pages ++ [last]))).
Proof.
  intros Hserves Hmore Hlast. unfold fetchDroplets.
  rewrite (run_loop _ _ _ _ _ _ Hserves Hmore).
  rewrite (afterListByTag_last _ _ _ Hlast).
  rewrite fetched_app. unfold fetched at 3. cbn [List.map List.concat].
  by rewrite app_nil_r.
Qed.

Lemma run_fetch_failure tag pages final err w :
  Serves (w_api w) tag {| Page := 1; PerPage := 200 |} (pages ++ [final]) ->
  forallb continues pages = true ->
  failure final = Some err ->
  run (fetchDroplets tag) w
  ≈ Ret (requested w tag {| Page := 1; PerPage := 200 |} (pages ++ [final]),
         inl (Errorf "Error retrieving droplets: " err)).
Proof.
  intros Hserves Hmore Hfail. unfold fetchDroplets.
  rewrite (run_loop _ _ _ _ _ _ Hserves Hmore).
  by rewrite (afterListByTag_failure _ _ _ _ Hfail).
Qed.

(** The write-back: a fresh identifier, then the list. *)
Lemma run_attributes droplets w :
  run (dropletsDecriptionAttributes droplets) w
  ≈ Ret (stored w (flattenDroplets droplets),
         write_error "droplets" (flattenDroplets droplets)).
Proof.
  unfold run, dropletsDecriptionAttributes, stored. cbv zeta.
  rewrite interp_state_bind, interp_state_trigger. cbn.
  rewrite bind_ret_l. cbn.
  rewrite interp_state_bind, interp_state_trigger. cbn.
  rewrite bind_ret_l. cbn.
  rewrite interp_state_bind, interp_state_trigger. cbn.
  destruct (write_error "droplets" _) as [err|];
    rewrite bind_ret_l; cbn; by rewrite interp_state_ret.
Qed.

(** The routine, from the outcome of its loop. *)
Lemma run_read tag w w' (outcome : error + list Droplet) :
  rd_config (w_data w) !! "tag" = Some tag ->
  run (fetchDroplets tag) w ≈ Ret (w', outcome) ->
  run dataSourceDigitalOceanDropletsRead w
  ≈ match outcome with
    | inl err => Ret (w', Some err)
    | inr dropletList =>
        Ret (stored w' (flattenDroplets dropletList),
             write_error "droplets" (flattenDroplets dropletList))
    end.
Proof.
  intros Htag Hfetch. unfold dataSourceDigitalOceanDropletsRead.
  unfold run at 1.
  rewrite interp_state_bind, interp_state_trigger. cbn.
  rewrite bind_ret_l. cbn. rewrite Htag. cbn.
  rewrite interp_state_bind. fold (run (fetchDroplets tag) w).
  rewrite Hfetch, bind_ret_l. cbn.
  destruct outcome as [err|dropletList].
  - by rewrite interp_state_ret.
  - apply run_attributes.
Qed.

(** C1: when the API serves pages that each announce a further one and
    then a page that is the last (it says so, or has no links), the loop
    asks for page 1 with 200 entries per page, asks after each page for
    the page it reported plus one (in [int] arithmetic, which is the
    plain sum below the largest [int]), makes as many requests as there
    are pages, and is left with the pages' droplets in order, as many as
    the pages hold together. *)
Theorem fetch_pagination tag pages last w :
  Serves (w_api w) tag {| Page := 1; PerPage := 200 |} (pages ++ [last]) ->
  forallb continues pages = true ->
  lastPage last = true ->
  exists w' requests,
    run (fetchDroplets tag) w ≈ Ret (w', inr (fetched (pages ++ [last])))
    /\ w_requests w' = w_requests w ++ requests
    /\ length requests = length (pages ++ [last])
    /\ requests !! 0%nat = Some (tag, {| Page := 1; PerPage := 200 |})
    /\ (forall (i : nat) reply page,
           pages !! i = Some reply ->
           morePages reply = Some page ->
           requests !! S i
           = Some (tag, {| Page := GoInt.add page 1; PerPage := 200 |})
           /\ (GoInt.min_int <= page < GoInt.max_int ->
               GoInt.add page 1 = page + 1))
    /\ length (fetched (pages ++ [last]))
       = sum_list (List.map (fun reply => length (Reply_droplets reply))
                            (pages ++ [last])).
Proof.
  intros Hserves Hmore Hlast.
  exists (requested w tag {| Page := 1; PerPage := 200 |} (pages ++ [last])).
  exists (pageRequests tag {| Page := 1; PerPage := 200 |} (pages ++ [last])).
  split; [by apply run_fetch_last|].
  split; [reflexivity|].
  split; [apply pageRequests_length|].
  split; [by destruct pages|].
  split; [|apply length_fetched].
  intros i reply page Hi Hpage. split; [|apply GoInt_add_1].
  apply (pageRequests_next tag pages {| Page := 1; PerPage := 200 |}
           i reply page last [] Hi Hpage).
Qed.

(** C2: when, after pages that each announce a further one, a request
    fails or a reported current page does not parse, the routine returns
    that error behind the words "Error retrieving droplets: "; the loop
    hands on no droplets, [d.Set] is not called, and the resource data and
    the identifiers handed out are as before. *)
Theorem fetch_error_aborts tag pages final err w :
  rd_config (w_data w) !! "tag" = Some tag ->
  Serves (w_api w) tag {| Page := 1; PerPage := 200 |} (pages ++ [final]) ->
  forallb continues pages = true ->
  failure final = Some err ->
  exists w',
    run (fetchDroplets tag) w
    ≈ Ret (w', inl (NewError (String.append "Error retrieving droplets: "
                                            (Error err))))
    /\ run dataSourceDigitalOceanDropletsRead w
       ≈ Ret (w', Some (NewError (String.append "Error retrieving droplets: "
                                                (Error err))))
    /\ w_sets w' = w_sets w
    /\ w_data w' = w_data w
    /\ w_issued w' = w_issued w.
Proof.
  intros Htag Hserves Hmore Hfail.
  exists (requested w tag {| Page := 1; PerPage := 200 |} (pages ++ [final])).
  pose proof (run_fetch_failure _ _ _ _ _ Hserves Hmore Hfail) as Hfetch.
  split; [exact Hfetch|].
  split; [|done].
  apply (run_read _ _ _ _ Htag Hfetch).
Qed.

(** C6: for a tag that is not empty, when the API answers with a single
    page holding no droplets and no error, the routine stores the empty
    list under [droplets] and returns no error. *)
Theorem no_droplets_empty_list tag reply w :
  tag <> "" ->
  rd_config (w_data w) !! "tag" = Some tag ->
  Serves (w_api w) tag {| Page := 1; PerPage := 200 |} [reply] ->
  Reply_droplets reply = [] ->
  lastPage reply = true ->
  exists w',
    run dataSourceDigitalOceanDropletsRead w ≈ Ret (w', None)
    /\ rd_lists (w_data w') !! "droplets" = Some []
    /\ w_sets w' = w_sets w ++ [("droplets", [])].
Proof.
  intros _ Htag Hserves Hnone Hlast.
  pose proof (run_fetch_last tag [] reply w Hserves eq_refl Hlast) as Hfetch.
  pose proof (run_read _ _ _ _ Htag Hfetch) as Hread. cbn beta iota in Hread.
  assert (Hfetched : fetched ([] ++ [reply]) = []).
  { unfold fetched. cbn. by rewrite Hnone. }
  rewrite Hfetched in Hread. cbn in Hread.
  eexists. split; [exact Hread|].
  split; [apply lookup_insert_eq|reflexivity].
Qed.

(** C7: in a run that succeeds, the list stored under [droplets] is
    [dropletMapping] applied to each droplet of the pages, in the order
    the API served them: one record for each droplet fetched. *)
Theorem output_list_is_map tag pages last w :
  rd_config (w_data w) !! "tag" = Some tag ->
  Serves (w_api w) tag {| Page := 1; PerPage := 200 |} (pages ++ [last]) ->
  forallb continues pages = true ->
  lastPage last = true ->
  write_error "droplets" (flattenDroplets (fetched (pages ++ [last]))) = None ->
  exists w',
    run dataSourceDigitalOceanDropletsRead w ≈ Ret (w', None)
    /\ rd_lists (w_data w') !! "droplets"
       = Some (List.map dropletMapping
                 (List.concat (List.map Reply_droplets (pages ++ [last]))))
    /\ w_sets w'
       = w_sets w
         ++ [("droplets",
              List.map dropletMapping
                (List.concat (List.map Reply_droplets (pages ++ [last]))))]
    /\ forall records,
         rd_lists (w_data w') !! "droplets" = Some records ->
         length records
         = length (List.concat (List.map Reply_droplets (pages ++ [last]))).
Proof.
  intros Htag Hserves Hmore Hlast Hwrite.
  pose proof (run_fetch_last _ _ _ _ Hserves Hmore Hlast) as Hfetch.
  pose proof (run_read _ _ _ _ Htag Hfetch) as Hread. cbn beta iota in Hread.
  rewrite Hwrite in Hread.
  eexists. split; [exact Hread|].
  cbn. rewrite Hwrite, flattenDroplets_map, lookup_insert_eq.
  split; [done|]. split; [done|].
  intros records [= <-]. apply length_map.
Qed.

(** C8: when the fetch succeeds and [d.Set] rejects the list, the routine
    returns the error of [d.Set] itself, with nothing put before it. *)
Theorem store_error_verbatim tag pages last err w :
  rd_config (w_data w) !! "tag" = Some tag ->
  Serves (w_api w) tag {| Page := 1; PerPage := 200 |} (pages ++ [last]) ->
  forallb continues pages = true ->
  lastPage last = true ->
  write_error "droplets" (flattenDroplets (fetched (pages ++ [last])))
  = Some err ->
  exists w', run dataSourceDigitalOceanDropletsRead w ≈ Ret (w', Some err).
Proof.
  intros Htag Hserves Hmore Hlast Hwrite.
  pose proof (run_fetch_last _ _ _ _ Hserves Hmore Hlast) as Hfetch.
  pose proof (run_read _ _ _ _ Htag Hfetch) as Hread. cbn beta iota in Hread.
  rewrite Hwrite in Hread. eexists. exact Hread.
Qed.

(** C9, as the code has it: a run that fails returns an error and stores
    no list.  When a page request fails or a current page does not parse,
    the resource data, identifier included, is left as it was.  When
    [d.Set] rejects the list, the list attributes are left as they were,
    but the identifier has already been replaced by a fresh one. *)
Theorem failure_commits_no_list tag pages final w :
  rd_config (w_data w) !! "tag" = Some tag ->
  Serves (w_api w) tag {| Page := 1; PerPage := 200 |} (pages ++ [final]) ->
  forallb continues pages = true ->
  (forall err,
      failure final = Some err ->
      exists w' err',
        run dataSourceDigitalOceanDropletsRead w ≈ Ret (w', Some err')
        /\ w_data w' = w_data w)
  /\ (forall err,
        lastPage final = true ->
        write_error "droplets" (flattenDroplets (fetched (pages ++ [final])))
        = Some err ->
        exists w' err',
          run dataSourceDigitalOceanDropletsRead w ≈ Ret (w', Some err')
          /\ rd_lists (w_data w') = rd_lists (w_data w)
          /\ rd_config (w_data w') = rd_config (w_data w)
          /\ rd_id (w_data w') = unique_id (w_issued w)).
Proof.
  intros Htag Hserves Hmore. split.
  - intros err Hfail.
    pose proof (run_fetch_failure _ _ _ _ _ Hserves Hmore Hfail) as Hfetch.
    pose proof (run_read _ _ _ _ Htag Hfetch) as Hread.
    eexists _, _. split; [exact Hread|done].
  - intros err Hlast Hwrite.
    pose proof (run_fetch_last _ _ _ _ Hserves Hmore Hlast) as Hfetch.
    pose proof (run_read _ _ _ _ Htag Hfetch) as Hread.
    cbn beta iota in Hread. rewrite Hwrite in Hread.
    eexists _, _. split; [exact Hread|].
    cbn. by rewrite Hwrite.
Qed.

End HostFacts.

(** ** The theorems at the sample data *)

Import Samples.

(** The scenario of the spec: one page with two instances. *)
Example scenario_records :
  List.map (fun record => (record !! "image", record !! "ipv4_address"))
           (flattenDroplets [web1; web2])
  = [ (Some (VString "ubuntu-20-04"), Some (VString "10.0.0.1"));
      (Some (VString "12345"), None) ].
Proof. vm_compute. reflexivity. Qed.

(** A current page that does not parse, on the second of three pages. *)
Example malformed_page_aborts :
  run secondMalformed uniqueId acceptAll (fetchDroplets "web") start
  ≈ Ret (requested secondMalformed start "web" {| Page := 1; PerPage := 200 |}
           ([page1] ++ [malformed]),
         inl (NewError
                "Error retrieving droplets: strconv.Atoi: invalid syntax")).
Proof.
  apply (run_fetch_failure secondMalformed uniqueId acceptAll "web"
           [page1] malformed (NewError "strconv.Atoi: invalid syntax") start).
  - cbn [Serves app]. repeat split.
  - reflexivity.
  - reflexivity.
Qed.

Lemma fetch_pagination_witness :
  Serves threePages tt "web" {| Page := 1; PerPage := 200 |}
         ([page1; page2] ++ [page3])
  /\ forallb continues [page1; page2] = true
  /\ lastPage page3 = true
  /\ exists w',
       run threePages uniqueId acceptAll (fetchDroplets "web") start
       ≈ Ret (w', inr [web1; web2; web3]).
Proof.
  assert (Hserves : Serves threePages tt "web" {| Page := 1; PerPage := 200 |}
                           ([page1; page2] ++ [page3]))
    by (cbn [Serves app]; repeat split).
  split; [exact Hserves|]. split; [reflexivity|]. split; [reflexivity|].
  destruct (fetch_pagination threePages uniqueId acceptAll "web"
              [page1; page2] page3 start Hserves eq_refl eq_refl)
    as (w' & requests & Hrun & _).
  exists w'. exact Hrun.
Defined.

Lemma fetch_error_aborts_witness :
  rd_config (w_data start) !! "tag" = Some "web"
  /\ Serves secondFails tt "web" {| Page := 1; PerPage := 200 |}
            ([page1] ++ [unavailable])
  /\ forallb continues [page1] = true
  /\ failure unavailable = Some (NewError "503 Service Unavailable")
  /\ exists w',
       run secondFails uniqueId acceptAll dataSourceDigitalOceanDropletsRead start
       ≈ Ret (w', Some (NewError
                          "Error retrieving droplets: 503 Service Unavailable"))
       /\ w_sets w' = [].
Proof.
  assert (Hserves : Serves secondFails tt "web" {| Page := 1; PerPage := 200 |}
                           ([page1] ++ [unavailable]))
    by (cbn [Serves app]; repeat split).
  split; [reflexivity|]. split; [exact Hserves|].
  split; [reflexivity|]. split; [reflexivity|].
  destruct (fetch_error_aborts secondFails uniqueId acceptAll "web"
              [page1] unavailable (NewError "503 Service Unavailable") start
              eq_refl Hserves eq_refl eq_refl)
    as (w' & _ & Hrun & Hsets & _).
  exists w'. split; [exact Hrun|exact Hsets].
Defined.

Lemma no_droplets_empty_list_witness :
  "web" <> ""
  /\ Serves noDroplets tt "web" {| Page := 1; PerPage := 200 |} [nothing]
  /\ exists w',
       run noDroplets uniqueId acceptAll dataSourceDigitalOceanDropletsRead start
       ≈ Ret (w', None)
       /\ rd_lists (w_data w') !! "droplets" = Some [].
Proof.
  assert (Hserves : Serves noDroplets tt "web" {| Page := 1; PerPage := 200 |}
                           [nothing])
    by (cbn [Serves]; repeat split).
  split; [discriminate|]. split; [exact Hserves|].
  destruct (no_droplets_empty_list noDroplets uniqueId acceptAll "web"
              nothing start ltac:(discriminate) eq_refl Hserves eq_refl eq_refl)
    as (w' & Hrun & Hlist & _).
  exists w'. split; [exact Hrun|exact Hlist].
Defined.

Lemma output_list_is_map_witness :
  Serves threePages tt "web" {| Page := 1; PerPage := 200 |}
         ([page1; page2] ++ [page3])
  /\ write_error acceptAll "droplets"
       (flattenDroplets (fetched ([page1; page2] ++ [page3]))) = None
  /\ exists w',
       run threePages uniqueId acceptAll dataSourceDigitalOceanDropletsRead start
       ≈ Ret (w', None)
       /\ rd_lists (w_data w') !! "droplets"
          = Some [dropletMapping web1; dropletMapping web2; dropletMapping web3].
Proof.
  assert (Hserves : Serves threePages tt "web" {| Page := 1; PerPage := 200 |}
                           ([page1; page2] ++ [page3]))
    by (cbn [Serves app]; repeat split).
  split; [exact Hserves|]. split; [reflexivity|].
  destruct (output_list_is_map threePages uniqueId acceptAll "web"
              [page1; page2] page3 start eq_refl Hserves eq_refl eq_refl eq_refl)
    as (w' & Hrun & Hlist & _).
  exists w'. split; [exact Hrun|exact Hlist].
Defined.

Lemma store_error_verbatim_witness :
  Serves onePage tt "web" {| Page := 1; PerPage := 200 |} ([] ++ [single])
  /\ write_error rejectAll "droplets"
       (flattenDroplets (fetched ([] ++ [single])))
     = Some (NewError "droplets: invalid element")
  /\ exists w',
       run onePage uniqueId rejectAll dataSourceDigitalOceanDropletsRead start
       ≈ Ret (w', Some (NewError "droplets: invalid element")).
Proof.
  assert (Hserves : Serves onePage tt "web" {| Page := 1; PerPage := 200 |}
                           ([] ++ [single]))
    by (cbn [Serves app]; repeat split).
  split; [exact Hserves|]. split; [reflexivity|].
  exact (store_error_verbatim onePage uniqueId rejectAll "web" [] single
           (NewError "droplets: invalid element") start
           eq_refl Hserves eq_refl eq_refl eq_refl).
Defined.

(** C9 fails as stated: when [d.Set] rejects the list, the run fails, but
    the resource data is not what it was, for the identifier was set
    before the write. *)
Lemma store_failure_changes_identifier :
  ~ (forall w' err,
        run onePage uniqueId rejectAll dataSourceDigitalOceanDropletsRead start
        ≈ Ret (w', Some err) ->
        w_data w' = w_data start).
Proof.
  intros Hunchanged.
  assert (Hserves : Serves onePage tt "web" {| Page := 1; PerPage := 200 |}
                           ([] ++ [single]))
    by (cbn [Serves app]; repeat split).
  pose proof (run_fetch_last onePage uniqueId rejectAll "web" [] single start
                Hserves eq_refl eq_refl) as Hfetch.
  pose proof (run_read onePage uniqueId rejectAll "web" start _ _
                eq_refl Hfetch) as Hread.
  cbn beta iota in Hread.
  apply Hunchanged in Hread. discriminate Hread.
Qed.

Lemma failure_commits_no_list_witness :
  rd_config (w_data start) !! "tag" = Some "web"
  /\ Serves onePage tt "web" {| Page := 1; PerPage := 200 |} ([] ++ [single])
  /\ forallb continues [] = true
  /\ exists w' err',
       run onePage uniqueId rejectAll dataSourceDigitalOceanDropletsRead start
       ≈ Ret (w', Some err')
       /\ rd_lists (w_data w') = ∅
       /\ rd_id (w_data w') = "terraform-0".
Proof.
  assert (Hserves : Serves onePage tt "web" {| Page := 1; PerPage := 200 |}
                           ([] ++ [single]))
    by (cbn [Serves app]; repeat split).
  split; [reflexivity|]. split; [exact Hserves|]. split; [reflexivity|].
  destruct (proj2 (failure_commits_no_list onePage uniqueId rejectAll "web"
                     [] single start eq_refl Hserves eq_refl)
              (NewError "droplets: invalid element") eq_refl eq_refl)
    as (w' & err' & Hrun & Hlists & _ & Hid).
  exists w', err'. split; [exact Hrun|]. split; [exact Hlists|exact Hid].
Defined.

(** ** The record as a list of writes *)

(** The keys [dropletMapping] writes are all different, so the record is
    the map of its writes. *)
Lemma dropletMapping_entries droplet :
  dropletMapping droplet = list_to_map (dropletEntries droplet).
Proof.
  unfold dropletMapping, dropletEntries. cbv zeta.
  destruct (Droplet_Features droplet);
    destruct (negb (String.eqb (findIPv6AddrByType droplet "private") ""));
    destruct (negb (String.eqb (findIPv6AddrByType droplet "public") ""));
    destruct (negb (String.eqb (findIPv4AddrByType droplet "private") ""));
    destruct (negb (String.eqb (findIPv4AddrByType droplet "public") ""));
    destruct (String.eqb (Image_Slug (Droplet_Image droplet)) "");
    reflexivity.
Qed.

(** Splits on what decides the optional writes of a droplet. *)
Ltac split_entries droplet :=
  unfold dropletEntries;
  destruct (Droplet_Features droplet);
  destruct (negb (String.eqb (findIPv6AddrByType droplet "private") ""));
  destruct (negb (String.eqb (findIPv6AddrByType droplet "public") ""));
  destruct (negb (String.eqb (findIPv4AddrByType droplet "private") ""));
  destruct (negb (String.eqb (findIPv4AddrByType droplet "public") "")).

Lemma dropletEntries_fit tagsDataSourceSchema droplet :
  Forall (fun '(key, v) =>
            exists s,
              (list_to_map
                 (elementFields
                    (dataSourceDigitalOceanDroplets tagsDataSourceSchema)
                    "droplets") : gmap string Schema) !! key = Some s
              /\ fits tagsDataSourceSchema v s)
         (dropletEntries droplet).
Proof.
  unfold dropletEntries. repeat (apply Forall_app; split).
  all: try match goal with |- context [ if ?b then _ else _ ] => destruct b end.
  all: try match goal with
           |- context [ match ?o with Some _ => _ | None => _ end ] =>
             destruct o
           end.
  all: repeat constructor.
  all: eexists; (split; [reflexivity|]); cbn; eauto.
Qed.

(** X1: whatever a record holds under a key, the schema declares that key
    among the fields of a [droplets] element, with the type of the value. *)
Theorem record_fits_schema tagsDataSourceSchema droplet key v :
  dropletMapping droplet !! key = Some v ->
  exists s,
    (list_to_map
       (elementFields (dataSourceDigitalOceanDroplets tagsDataSourceSchema)
                      "droplets") : gmap string Schema) !! key = Some s
    /\ fits tagsDataSourceSchema v s.
Proof.
  rewrite dropletMapping_entries. intros Hkey%elem_of_list_to_map_2.
  pose proof (dropletEntries_fit tagsDataSourceSchema droplet) as Hall.
  rewrite Forall_forall in Hall. apply (Hall (key, v) Hkey).
Qed.

(** X2: the eleven scalar fields, the volume identifiers and the tags are
    in every record, as they are on the droplet: no later write replaces
    them. *)
Theorem scalar_fields_verbatim droplet :
  Forall (fun '(key, v) => dropletMapping droplet !! key = Some v)
    [ ("name", VString (Droplet_Name droplet));
      ("urn", VString (URN droplet));
      ("region", VString (Region_Slug (Droplet_Region droplet)));
      ("size", VString (Size_Slug (Droplet_Size droplet)));
      ("price_hourly", VFloat (Size_PriceHourly (Droplet_Size droplet)));
      ("price_monthly", VFloat (Size_PriceMonthly (Droplet_Size droplet)));
      ("disk", VInt (Droplet_Disk droplet));
      ("vcpus", VInt (Droplet_Vcpus droplet));
      ("memory", VInt (Droplet_Memory droplet));
      ("status", VString (Droplet_Status droplet));
      ("locked", VBool (Droplet_Locked droplet));
      ("volume_ids",
       VSet (flattenDigitalOceanDropletVolumeIds (Droplet_VolumeIDs droplet)));
      ("tags", VTags (flattenTags (Droplet_Tags droplet))) ].
Proof.
  rewrite dropletMapping_entries. split_entries droplet.
  all: repeat constructor.
Qed.

(** X3: a record has the fourteen keys written for every droplet, one more
    for each address found, and four more when there is a feature list: at
    least 14 and at most 22 keys. *)
Theorem record_size droplet :
  size (dropletMapping droplet) = (14 + optionalKeys droplet)%nat
  /\ (14 <= size (dropletMapping droplet) <= 22)%nat.
Proof.
  rewrite dropletMapping_entries.
  unfold optionalKeys, addressFields, featureFlags. cbn [List.filter].
  fold (findIPv4AddrByType droplet "public").
  fold (findIPv4AddrByType droplet "private").
  fold (findIPv6AddrByType droplet "public").
  fold (findIPv6AddrByType droplet "private").
  split_entries droplet.
  all: vm_compute; split; [reflexivity|split; lia].
Qed.

(** X4: the keys a record can have are the fields the schema declares for
    a [droplets] element, no more and no fewer. *)
Theorem record_keys_are_schema_fields tagsDataSourceSchema (key : string) :
  (exists droplet, is_Some (dropletMapping droplet !! key))
  <-> key ∈ (elementFields (dataSourceDigitalOceanDroplets tagsDataSourceSchema)
                           "droplets").*1.
Proof.
  split.
  - intros [droplet [v Hv]].
    rewrite dropletMapping_entries in Hv. apply elem_of_list_to_map_2 in Hv.
    pose proof (dropletEntries_fit tagsDataSourceSchema droplet) as Hall.
    rewrite Forall_forall in Hall.
    destruct (Hall (key, v) Hv) as (s & Hs%elem_of_list_to_map_2 & _).
    apply list_elem_of_fmap. by exists (key, s).
  - intros Hkey. exists Samples.web4.
    change ((elementFields (dataSourceDigitalOceanDroplets tagsDataSourceSchema)
                           "droplets").*1)
      with [ "name"; "urn"; "region"; "image"; "size"; "disk"; "vcpus";
             "memory"; "price_hourly"; "price_monthly"; "status"; "locked";
             "ipv4_address"; "ipv4_address_private"; "ipv6_address";
             "ipv6_address_private"; "backups"; "ipv6"; "private_networking";
             "monitoring"; "volume_ids"; "tags" ] in Hkey.
    repeat (apply elem_of_cons in Hkey as [->|Hkey]; [vm_compute; eauto|]).
    by apply elem_of_nil in Hkey.
Qed.

Lemma ToLower_empty (s : string) : ToLower s = "" -> s = "".
Proof. by destruct s. Qed.

Lemma toLowerByte_not_upper (c : ascii) : isUpperByte (toLowerByte c) = false.
Proof.
  destruct c as [[] [] [] [] [] [] [] []]; reflexivity.
Qed.

Lemma ToLower_not_upper (s : string) :
  existsb isUpperByte (list_ascii_of_string (ToLower s)) = false.
Proof.
  induction s as [|c s IH]; [done|].
  cbn [ToLower list_ascii_of_string existsb].
  by rewrite toLowerByte_not_upper, IH.
Qed.

(** X5: an address key that is present never holds the empty string: it
    holds the address of the first interface of its family and scope, a
    string that is not empty, lower-cased for the two IPv6 keys. *)
Theorem address_values_not_empty droplet key fam addrType post v :
  In (key, fam, addrType, post) addressFields ->
  dropletMapping droplet !! key = Some v ->
  exists addr,
    firstInterface fam addrType droplet = Some addr
    /\ Interface_IPAddress addr <> ""
    /\ v = VString (post (Interface_IPAddress addr))
    /\ post (Interface_IPAddress addr) <> "".
Proof.
  intros Hkey Hv.
  pose proof (lookup_address droplet) as Hall.
  rewrite List.Forall_forall in Hall. specialize (Hall _ Hkey). cbn in Hall.
  rewrite Hall in Hv. unfold addressValue in Hv.
  destruct (firstInterface fam addrType droplet) as [addr|]; [|done].
  destruct (String.eqb_spec (Interface_IPAddress addr) "") as [|Hne]; [done|].
  injection Hv as <-. exists addr. repeat split; [done|].
  unfold addressFields in Hkey. cbn in Hkey.
  destruct Hkey as [[= <- <- <- <-]|[[= <- <- <- <-]|[[= <- <- <- <-]|[[= <- <- <- <-]|[]]]]].
  - done.
  - done.
  - by intros ?%ToLower_empty.
  - by intros ?%ToLower_empty.
Qed.

(** X6: the two IPv6 keys never hold an upper-case ASCII letter. *)
Theorem ipv6_values_lower_case droplet key addrType v :
  In (key, V6, addrType, ToLower) addressFields ->
  dropletMapping droplet !! key = Some v ->
  exists s,
    v = VString s
    /\ existsb isUpperByte (list_ascii_of_string s) = false.
Proof.
  intros Hkey Hv.
  pose proof (lookup_address droplet) as Hall.
  rewrite List.Forall_forall in Hall. specialize (Hall _ Hkey). cbn in Hall.
  rewrite Hall in Hv. unfold addressValue in Hv.
  destruct (firstInterface V6 addrType droplet) as [addr|]; [|done].
  destruct (String.eqb _ _); [done|]. injection Hv as <-.
  eexists. split; [done|apply ToLower_not_upper].
Qed.

(** ** More on the run *)

(** A reply that announces no further page ends the pagination or is a
    failure. *)
Lemma not_continues_final reply :
  continues reply = false ->
  lastPage reply = true \/ exists err, failure reply = Some err.
Proof.
  destruct reply as [[droplets [links]] err].
  unfold continues, morePages, lastPage, failure, Reply_err, Reply_resp. cbn.
  destruct err as [err|]; [by right; exists err|].
  destruct links as [links|]; [|by left].
  destruct (IsLastPage links); [by left|].
  destruct (CurrentPage links) as [page [err|]]; [|done].
  right. by exists err.
Qed.

Lemma pageRequests_uniform tag opts replies :
  Forall (fun request : Request =>
            fst request = tag /\ PerPage (snd request) = PerPage opts)
         (pageRequests tag opts replies).
Proof.
  revert opts. induction replies as [|reply rest IH]; intros opts;
    cbn [pageRequests]; constructor; [done|].
  specialize (IH (followUp opts reply)).
  by rewrite followUp_PerPage in IH.
Qed.

(** A loop whose body always goes on never ends. *)
Lemma iter_inl_spin {E : Type -> Type} {A B : Type} (next : A -> A) :
  forall a : A,
    @ITree.iter E B A (fun a => Ret (inl (next a))) a ≅ ITree.spin.
Proof.
  pcofix CIH. intros a. pfold. red. cbn. constructor. right. apply CIH.
Qed.

Lemma bind_spin {E : Type -> Type} {A B : Type} (k : A -> itree E B) :
  ITree.bind ITree.spin k ≅ ITree.spin.
Proof.
  pcofix CIH. pfold. red. cbn. constructor. right. apply CIH.
Qed.

Section HostRuns.

Context {ApiState : Type}.
Context (list_by_tag : ApiState -> string -> ListOptions -> ApiState * Reply).
Context (unique_id : nat -> string).
Context (element_error : string -> OutputRecord -> option error).

Local Abbreviation World := (World ApiState).
Local Abbreviation run := (run list_by_tag unique_id element_error).
Local Abbreviation requested := (requested list_by_tag).
Local Abbreviation Serves := (Serves list_by_tag).
Local Abbreviation write_error := (write_error element_error).
Local Abbreviation turn := (turn list_by_tag).

Implicit Types (w : World) (opts : ListOptions) (replies : list Reply).

(** X7: the loop returns at the first reply that announces no further
    page, whether that reply ends the pagination or fails.  It has then made
    one request for each reply and none after, every request with the tag
    and 200 entries per page, and has not touched the resource data. *)
Theorem fetch_stops_at_first_final_reply tag pages final w :
  Serves (w_api w) tag {| Page := 1; PerPage := 200 |} (pages ++ [final]) ->
  forallb continues pages = true ->
  continues final = false ->
  exists w' outcome requests,
    run (fetchDroplets tag) w ≈ Ret (w', outcome)
    /\ (lastPage final = true /\ outcome = inr (fetched (pages ++ [final]))
        \/ exists err,
             failure final = Some err
             /\ outcome = inl (Errorf "Error retrieving droplets: " err))
    /\ w_requests w' = w_requests w ++ requests
    /\ length requests = S (length pages)
    /\ Forall (fun request : Request =>
                 fst request = tag /\ PerPage (snd request) = 200) requests
    /\ w_data w' = w_data w
    /\ w_sets w' = w_sets w
    /\ w_issued w' = w_issued w.
Proof.
  intros Hserves Hmore Hfinal.
  exists (requested w tag {| Page := 1; PerPage := 200 |} (pages ++ [final])).
  assert (Hlog : length (pageRequests tag {| Page := 1; PerPage := 200 |}
                                      (pages ++ [final])) = S (length pages)).
  { rewrite pageRequests_length, length_app. cbn. lia. }
  destruct (not_continues_final _ Hfinal) as [Hlast|[err Hfail]].
  - exists (inr (fetched (pages ++ [final]))).
    exists (pageRequests tag {| Page := 1; PerPage := 200 |} (pages ++ [final])).
    split; [by apply run_fetch_last|]. split; [by left|].
    split; [done|]. split; [done|].
    split; [|done].
    apply (pageRequests_uniform tag {| Page := 1; PerPage := 200 |}).
  - exists (inl (Errorf "Error retrieving droplets: " err)).
    exists (pageRequests tag {| Page := 1; PerPage := 200 |} (pages ++ [final])).
    split; [by apply run_fetch_failure|]. split; [right; by exists err|].
    split; [done|]. split; [done|].
    split; [|done].
    apply (pageRequests_uniform tag {| Page := 1; PerPage := 200 |}).
Qed.

Lemma run_loop_spin tag :
  (forall api opts, continues (snd (list_by_tag api tag opts)) = true) ->
  forall st w, run (ITree.iter (fetchIteration tag) st) w ≈ ITree.spin.
Proof.
  intros Halways st w. unfold run.
  rewrite (interp_state_iter'_eutt _ (fetchIteration tag)
             (fun st w => Ret (fst (turn tag (w, st)),
                               inl (snd (turn tag (w, st)))))).
  - unfold Basics.iter, MonadIter_stateT0, Basics.iter, MonadIter_itree. cbn.
    rewrite <- (iter_inl_spin (turn tag) (w, st)).
    apply eutt_iter. intros [w' st']. cbn. rewrite bind_ret_l. cbn. reflexivity.
  - intros [opts dropletList] w'. unfold fetchIteration.
    rewrite interp_state_bind, interp_state_trigger. cbn. rewrite bind_ret_l. cbn.
    specialize (Halways (w_api w') opts). unfold continues in Halways.
    destruct (morePages _) as [page|] eqn:Hpage; [|done].
    rewrite (afterListByTag_more _ _ _ _ Hpage). rewrite interp_state_ret.
    unfold turn, followUp. cbn. rewrite Hpage. reflexivity.
Qed.

(** X8: the loop has no cap on the number of pages: against an API that
    announces a further page after every page of the tag, the routine never
    returns. *)
Theorem read_never_returns tag w :
  rd_config (w_data w) !! "tag" = Some tag ->
  (forall api opts, continues (snd (list_by_tag api tag opts)) = true) ->
  run dataSourceDigitalOceanDropletsRead w ≈ ITree.spin
  /\ forall w' result,
       ~ (run dataSourceDigitalOceanDropletsRead w ≈ Ret (w', result)).
Proof.
  intros Htag Halways.
  assert (Hspin : run dataSourceDigitalOceanDropletsRead w ≈ ITree.spin).
  { unfold dataSourceDigitalOceanDropletsRead, run.
    rewrite interp_state_bind, interp_state_trigger. cbn.
    rewrite bind_ret_l. cbn. rewrite Htag. cbn.
    rewrite interp_state_bind. unfold fetchDroplets.
    pose proof (run_loop_spin tag Halways
                  ({| Page := 1; PerPage := 200 |}, []) w) as Hloop.
    unfold run in Hloop. rewrite Hloop. by rewrite bind_spin. }
  split; [exact Hspin|].
  intros w' result Hret. rewrite Hspin in Hret.
  by apply eutt_spin_Ret_abs in Hret.
Qed.

(** X9: a run that succeeds replaces the identifier by the next one the
    framework hands out, taking one identifier only, calls [d.Set] once, and
    leaves the configuration and the other list attributes as they were. *)
Theorem success_sets_fresh_identifier tag pages last w :
  rd_config (w_data w) !! "tag" = Some tag ->
  Serves (w_api w) tag {| Page := 1; PerPage := 200 |} (pages ++ [last]) ->
  forallb continues pages = true ->
  lastPage last = true ->
  write_error "droplets" (flattenDroplets (fetched (pages ++ [last]))) = None ->
  exists w',
    run dataSourceDigitalOceanDropletsRead w ≈ Ret (w', None)
    /\ rd_id (w_data w') = unique_id (w_issued w)
    /\ w_issued w' = S (w_issued w)
    /\ length (w_sets w') = S (length (w_sets w))
    /\ rd_config (w_data w') = rd_config (w_data w)
    /\ forall key : string,
         key <> "droplets" ->
         rd_lists (w_data w') !! key = rd_lists (w_data w) !! key.
Proof.
  intros Htag Hserves Hmore Hlast Hwrite.
  pose proof (run_fetch_last _ unique_id element_error _ _ _ _
                Hserves Hmore Hlast) as Hfetch.
  pose proof (run_read _ _ _ _ _ _ _ Htag Hfetch) as Hread.
  cbn beta iota in Hread. rewrite Hwrite in Hread.
  eexists. split; [exact Hread|].
  cbn. rewrite Hwrite. repeat split.
  - rewrite length_app. cbn. lia.
  - intros key Hkey. by rewrite lookup_insert_ne.
Qed.

End HostRuns.

(** ** The further theorems at the sample data *)

Lemma record_fits_schema_witness :
  dropletMapping web1 !! "price_hourly" = Some (VFloat 0.0078125%float)
  /\ exists s,
       (list_to_map
          (elementFields
             (dataSourceDigitalOceanDroplets (computedField TypeSet ""))
             "droplets") : gmap string Schema) !! "price_hourly" = Some s
       /\ Schema_Type s = TypeFloat.
Proof.
  split; [reflexivity|].
  exact (record_fits_schema (computedField TypeSet "") web1 "price_hourly"
           (VFloat 0.0078125%float) eq_refl).
Defined.

Lemma address_values_not_empty_witness :
  In ("ipv6_address", V6, "public", ToLower) addressFields
  /\ dropletMapping web1 !! "ipv6_address"
     = Some (VString "2604:a880:0800:0010::1")
  /\ exists addr,
       firstInterface V6 "public" web1 = Some addr
       /\ Interface_IPAddress addr <> ""
       /\ VString "2604:a880:0800:0010::1"
          = VString (ToLower (Interface_IPAddress addr))
       /\ ToLower (Interface_IPAddress addr) <> "".
Proof.
  assert (Hfield : In ("ipv6_address", V6, "public", ToLower) addressFields)
    by (right; right; left; reflexivity).
  split; [exact Hfield|]. split; [reflexivity|].
  exact (address_values_not_empty web1 "ipv6_address" V6 "public" ToLower
           (VString "2604:a880:0800:0010::1") Hfield eq_refl).
Defined.

Lemma ipv6_values_lower_case_witness :
  In ("ipv6_address", V6, "public", ToLower) addressFields
  /\ dropletMapping web1 !! "ipv6_address"
     = Some (VString "2604:a880:0800:0010::1")
  /\ exists s,
       VString "2604:a880:0800:0010::1" = VString s
       /\ existsb isUpperByte (list_ascii_of_string s) = false.
Proof.
  assert (Hfield : In ("ipv6_address", V6, "public", ToLower) addressFields)
    by (right; right; left; reflexivity).
  split; [exact Hfield|]. split; [reflexivity|].
  exact (ipv6_values_lower_case web1 "ipv6_address" "public"
           (VString "2604:a880:0800:0010::1") Hfield eq_refl).
Defined.

Lemma fetch_stops_at_first_final_reply_witness :
  Serves secondMalformed tt "web" {| Page := 1; PerPage := 200 |}
         ([page1] ++ [malformed])
  /\ forallb continues [page1] = true
  /\ continues malformed = false
  /\ exists w' outcome requests,
       run secondMalformed uniqueId acceptAll (fetchDroplets "web") start
       ≈ Ret (w', outcome)
       /\ w_requests w' = w_requests start ++ requests
       /\ length requests = 2%nat.
Proof.
  assert (Hserves : Serves secondMalformed tt "web"
                           {| Page := 1; PerPage := 200 |}
                           ([page1] ++ [malformed]))
    by (cbn [Serves app]; repeat split).
  split; [exact Hserves|]. split; [reflexivity|]. split; [reflexivity|].
  destruct (fetch_stops_at_first_final_reply secondMalformed uniqueId acceptAll
              "web" [page1] malformed start Hserves eq_refl eq_refl)
    as (w' & outcome & requests & Hrun & _ & Hlog & Hlen & _).
  exists w', outcome, requests. split; [exact Hrun|]. split; [exact Hlog|exact Hlen].
Defined.

Lemma read_never_returns_witness :
  rd_config (w_data start) !! "tag" = Some "web"
  /\ (forall api opts, continues (snd (endless api "web" opts)) = true)
  /\ run endless uniqueId acceptAll dataSourceDigitalOceanDropletsRead start
     ≈ ITree.spin.
Proof.
  split; [reflexivity|]. split; [intros api opts; reflexivity|].
  exact (proj1 (read_never_returns endless uniqueId acceptAll "web" start
                  eq_refl (fun api opts => eq_refl))).
Defined.

Lemma success_sets_fresh_identifier_witness :
  Serves threePages tt "web" {| Page := 1; PerPage := 200 |}
         ([page1; page2] ++ [page3])
  /\ write_error acceptAll "droplets"
       (flattenDroplets (fetched ([page1; page2] ++ [page3]))) = None
  /\ exists w',
       run threePages uniqueId acceptAll dataSourceDigitalOceanDropletsRead start
       ≈ Ret (w', None)
       /\ rd_id (w_data w') = "terraform-0".
Proof.
  assert (Hserves : Serves threePages tt "web" {| Page := 1; PerPage := 200 |}
                           ([page1; page2] ++ [page3]))
    by (cbn [Serves app]; repeat split).
  split; [exact Hserves|]. split; [reflexivity|].
  destruct (success_sets_fresh_identifier threePages uniqueId acceptAll "web"
              [page1; page2] page3 start eq_refl Hserves eq_refl eq_refl eq_refl)
    as (w' & Hrun & Hid & _).
  exists w'. split; [exact Hrun|exact Hid].
Defined.
